(** * Component save/load translation layer (saveload/details.rs)

    A shallow embedding of the generic save/load dispatch of the
    [saveload] module: the per-component codec trait
    [SaveLoadComponent], its blanket pass-through implementation for
    [Copy] components, and the tuple implementation of [Components]
    generated by [impl_components!].

    - A component type list [(T1, ..., Tn)] is a [list Member]; the
      tuple types [(Option<T1::Data>, ...)] and
      [(ReadStorage<T1>, ...)] / [(WriteStorage<T1>, ...)] are computed
      from it by recursion, as right-nested pairs ending in [unit].
    - The lookup closure [ids : F] with [F : FnMut(..) -> Option<..>]
      is a function that threads the closure's captured state [S];
      the bundle passes [&mut ids] to every codec, so the same state is
      threaded through all of them, left to right.
    - [save] and [load] run in a small state monad over the storages
      they borrow and the closure state. *)

From stdpp Require Import base gmap list.

(* ------------------------------------------------------------------ *)
(** ** Entities, results, closures *)

(** [world::Entity]: an opaque live handle, modelled by its index. *)
Abbreviation Entity := nat.

(** Rust's [Result<A, E>]. *)
Inductive Result (A Er : Type) : Type :=
| Ok (a : A)
| Err (er : Er).
Arguments Ok {A Er} a.
Arguments Err {A Er} er.

Definition map_ok {A B Er} (f : A -> B) (r : Result A Er) : Result B Er :=
  match r with
  | Ok a => Ok (f a)
  | Err er => Err er
  end.

(** A closure [F : FnMut(A) -> B] capturing state [S]: each call may
    update the captured state. *)
Definition Closure (S A B : Type) : Type := A -> S -> B * S.

(** Modelled from the spec: [error::NoError] (not in src/), the error
    type of the pass-through codec, uninhabited by construction. *)
Inductive NoError : Type := .

(* ------------------------------------------------------------------ *)
(** ** Component storages *)

(** Modelled from the spec: the storage engine's per-type table
    ([storage::ReadStorage] / [storage::WriteStorage], not in src/),
    consumed through [get(entity) -> Option<&C>], [insert(entity, C)]
    and [remove(entity)]: at most one instance per entity. *)
Abbreviation Storage C := (gmap Entity C).

(* ------------------------------------------------------------------ *)
(** ** The codec trait [SaveLoadComponent<M>] *)

(** One implementation of [SaveLoadComponent<M>]: the component type,
    its [Data] and [Error] types, and the two methods, generic over the
    lookup closure (hence over its captured state [S]). *)
Record SaveLoadComponent (M : Type) : Type := {
  Comp : Type;
  Data : Type;
  Error : Type;
  save : forall S : Type,
    Comp -> Closure S Entity (option M) -> S -> Result Data Error * S;
  load : forall S : Type,
    Data -> Closure S M (option Entity) -> S -> Result Comp Error * S
}.
Arguments Comp {M} _.
Arguments Data {M} _.
Arguments Error {M} _.
Arguments save {M} _ {S} _ _ _.
Arguments load {M} _ {S} _ _ _.

(** The blanket [impl<C: Component + DeserializeOwned + Serialize + Copy>
    SaveLoadComponent<M> for C]: [Data = Self], [Error = NoError],
    [save] is [Ok( *self)] and [load] is [Ok(data)]; [_ids] is unused. *)
Definition copy_component (M C : Type) : SaveLoadComponent M := {|
  Comp := C;
  Data := C;
  Error := NoError;
  save := fun S (self : C) (_ids : Closure S Entity (option M)) s => (Ok self, s);
  load := fun S (data : C) (_ids : Closure S M (option Entity)) s => (Ok data, s)
|}.

(** One element [A] of a component tuple inside [Components<M, E>]: its
    codec together with the [E: From<A::Error>] conversion. *)
Record Member (M E : Type) : Type := {
  codec : SaveLoadComponent M;
  from : Error codec -> E
}.
Arguments codec {M E} _.
Arguments from {M E} _ _.

(* ------------------------------------------------------------------ *)
(** ** Component tuples: [impl_components!] *)

Section Components.

Variables M E : Type.

(** [Storages<'a>::ReadStorages] / [WriteStorages]: one storage per
    component type of the tuple, in order. *)
Fixpoint storages (ts : list (Member M E)) : Type :=
  match ts with
  | [] => unit
  | t :: ts' => Storage (Comp (codec t)) * storages ts'
  end.

(** [Components<M, E>::Data = (Option<A::Data>, ...)]. *)
Fixpoint payload (ts : list (Member M E)) : Type :=
  match ts with
  | [] => unit
  | t :: ts' => option (Data (codec t)) * payload ts'
  end.

(** The state of one bundle operation: the borrowed storages [X] and the
    captured state [S] of the lookup closure. *)
Section Monad.

Variable S : Type.

Definition StM (X A : Type) : Type := X * S -> A * (X * S).

Definition ret {X A} (a : A) : StM X A := fun w => (a, w).

Definition bind {X A B} (m : StM X A) (k : A -> StM X B) : StM X B :=
  fun w => let '(a, w') := m w in k a w'.

(** Calling a codec method with [&mut ids]: only the closure state moves. *)
Definition with_ids {X A} (f : S -> A * S) : StM X A :=
  fun w => let '(a, s') := f (snd w) in (a, (fst w, s')).

(** The storage primitives. *)
Definition get_st {C} (e : Entity) : StM (Storage C) (option C) :=
  fun w => (fst w !! e, w).

Definition insert_st {C} (e : Entity) (c : C) : StM (Storage C) unit :=
  fun w => (tt, (<[e := c]> (fst w), snd w)).

Definition remove_st {C} (e : Entity) : StM (Storage C) unit :=
  fun w => (tt, (delete e (fst w), snd w)).

(** [let (ref a, ref b, ...) = *storages]: run on the first storage of
    the tuple, or on the rest of it. *)
Definition on_head {X Y A} (m : StM X A) : StM (X * Y) A :=
  fun w => let '(a, (x', s')) := m (fst (fst w), snd w) in
           (a, ((x', snd (fst w)), s')).

Definition on_tail {X Y A} (m : StM Y A) : StM (X * Y) A :=
  fun w => let '(a, (y', s')) := m (snd (fst w), snd w) in
           (a, ((fst (fst w), y'), s')).

(** Rust's [?] on a component result: convert the error with [From]
    and return early. *)
Definition try_ {X A Er B} (conv : Er -> E) (m : StM X (Result A Er))
    (k : A -> StM X (Result B E)) : StM X (Result B E) :=
  bind m (fun r => match r with
                   | Ok a => k a
                   | Err er => ret (Err (conv er))
                   end).

End Monad.

Arguments ret {S X A} a _.
Arguments bind {S X A B} m k _.
Arguments with_ids {S X A} f _.
Arguments get_st {S C} e _.
Arguments insert_st {S C} e c _.
Arguments remove_st {S C} e _.
Arguments on_head {S X Y A} m _.
Arguments on_tail {S X Y A} m _.
Arguments try_ {S X A Er B} conv m k _.

Notation "x <- m ; k" := (bind m (fun x => k))
  (at level 60, m at next level, right associativity).

(** One tuple element of [save]:
    [$b.get(entity).map(|c| c.save(&mut ids).map(Some)).unwrap_or(Ok(None))]. *)
Definition save_slot {S} (t : Member M E) (entity : Entity)
    (ids : Closure S Entity (option M))
    : StM S (Storage (Comp (codec t))) (Result (option (Data (codec t))) (Error (codec t))) :=
  oc <- get_st entity;
  match oc with
  | Some c => with_ids (fun s => let '(r, s') := save (codec t) c ids s in (map_ok Some r, s'))
  | None => ret (Ok None)
  end.

(** [Components::save]: [Ok(( slot_1?, ..., slot_n? ))]; the tuple is
    evaluated left to right, each [?] returning early with [E::from]. *)
Fixpoint bundle_save {S} (ts : list (Member M E)) (entity : Entity)
    (ids : Closure S Entity (option M))
    : StM S (storages ts) (Result (payload ts) E) :=
  match ts as l return StM S (storages l) (Result (payload l) E) with
  | [] => ret (Ok tt)
  | t :: ts' =>
      try_ (from t) (on_head (save_slot t entity ids)) (fun x =>
      r <- on_tail (bundle_save ts' entity ids);
      match r with
      | Ok p => ret (Ok (x, p))
      | Err er => ret (Err er)
      end)
  end.

(** One element of [load]:
    [if let Some(a) = $a { $b.insert(entity, $a::load(a, &mut ids)?); }
     else { $b.remove(entity); }]. *)
Definition load_slot {S} (t : Member M E) (entity : Entity)
    (slot : option (Data (codec t))) (ids : Closure S M (option Entity))
    : StM S (Storage (Comp (codec t))) (Result unit E) :=
  match slot with
  | Some a =>
      try_ (from t) (with_ids (load (codec t) a ids)) (fun c =>
      _ <- insert_st entity c;
      ret (Ok tt))
  | None =>
      _ <- remove_st entity;
      ret (Ok tt)
  end.

(** [Components::load]: the slots in order, then [Ok(())]. *)
Fixpoint bundle_load {S} (ts : list (Member M E)) (entity : Entity)
    : payload ts -> Closure S M (option Entity) -> StM S (storages ts) (Result unit E) :=
  match ts as l return payload l -> Closure S M (option Entity) -> StM S (storages l) (Result unit E) with
  | [] => fun _ _ => ret (Ok tt)
  | t :: ts' => fun components ids =>
      r <- on_head (load_slot t entity (fst components) ids);
      match r with
      | Ok _ => on_tail (bundle_load ts' entity (snd components) ids)
      | Err er => ret (Err er)
      end
  end.

End Components.

Arguments ret {S X A} a _.
Arguments bind {S X A B} m k _.
Arguments with_ids {S X A} f _.
Arguments get_st {S C} e _.
Arguments insert_st {S C} e c _.
Arguments remove_st {S C} e _.
Arguments on_head {S X Y A} m _.
Arguments on_tail {S X Y A} m _.
Arguments try_ {E S X A Er B} conv m k _.

Notation "x <- m ; k" := (bind m (fun x => k))
  (at level 60, m at next level, right associativity).

Arguments storages {M E} ts.
Arguments payload {M E} ts.
Arguments save_slot {M E S} t entity ids _.
Arguments bundle_save {M E S} ts entity ids _.
Arguments load_slot {M E S} t entity slot ids _.
Arguments bundle_load {M E S} ts entity _ _ _.

(* ------------------------------------------------------------------ *)
(** ** Entity records *)

(** [EntityData<M, E, T>]: a marker paired with the bundle payload. *)
Record EntityData (M E : Type) (ts : list (Member M E)) : Type := {
  marker : M;
  components : payload ts
}.
Arguments marker {M E ts} _.
Arguments components {M E ts} _.

(** Modelled from the spec (section 4.5): [save_entity_record], the
    caller of [Components::save] that builds the record (it lives in the
    serializer, not in src/): the bundle payload paired with [marker]. *)
Definition save_entity_record {M E S} (ts : list (Member M E)) (entity : Entity)
    (marker : M) (ids : Closure S Entity (option M))
    : StM S (storages ts) (Result (EntityData M E ts) E) :=
  r <- bundle_save ts entity ids;
  match r with
  | Ok p => ret (Ok {| marker := marker; components := p |})
  | Err er => ret (Err er)
  end.

(** Modelled from the spec (section 4.5): [load_entity_record], the
    caller of [Components::load] (in the deserializer, not in src/): the
    record's payload is loaded onto the entity resolved for its marker. *)
Definition load_entity_record {M E S} (ts : list (Member M E))
    (record : EntityData M E ts) (entity_for_marker : Entity)
    (ids : Closure S M (option Entity))
    : StM S (storages ts) (Result unit E) :=
  bundle_load ts entity_for_marker (components record) ids.

(* ------------------------------------------------------------------ *)
(** ** Tuples split at a position *)

Section Split.

Variables M E : Type.

(** The storages of [pre ++ post] from those of [pre] and of [post]. *)
Fixpoint st_app (pre post : list (Member M E))
    : storages pre -> storages post -> storages (pre ++ post) :=
  match pre as l return storages l -> storages post -> storages (l ++ post) with
  | [] => fun _ b => b
  | t :: pre' => fun a b => (fst a, st_app pre' post (snd a) b)
  end.

(** The payload of [pre ++ post] from those of [pre] and of [post]. *)
Fixpoint pl_app (pre post : list (Member M E))
    : payload pre -> payload post -> payload (pre ++ post) :=
  match pre as l return payload l -> payload post -> payload (l ++ post) with
  | [] => fun _ b => b
  | t :: pre' => fun a b => (fst a, pl_app pre' post (snd a) b)
  end.

End Split.

Arguments st_app {M E} pre post _ _.
Arguments pl_app {M E} pre post _ _.

(* ------------------------------------------------------------------ *)
(** ** The bundle operations as the spec describes them (section 4.4) *)

Section SpecSide.

Variables M E S : Type.

(** Save, slot by slot: slot [i] is [None] when the entity has no [Ti]
    instance, and [Some d] when it has one and its codec's [save]
    returned [Ok d]; the lookup closure's state runs through the slots
    in order. *)
Fixpoint spec_bundle_save (entity : Entity) (ids : Closure S Entity (option M))
    (ts : list (Member M E)) : storages ts -> S -> payload ts -> S -> Prop :=
  match ts as l return storages l -> S -> payload l -> S -> Prop with
  | [] => fun _ s _ s' => s' = s
  | t :: ts' => fun st s p s' =>
      (fst st !! entity = None /\ fst p = None /\
       spec_bundle_save entity ids ts' (snd st) s (snd p) s') \/
      (exists c d s1, fst st !! entity = Some c /\
       save (codec t) c ids s = (Ok d, s1) /\ fst p = Some d /\
       spec_bundle_save entity ids ts' (snd st) s1 (snd p) s')
  end.

(** Load, slot by slot: a [None] slot removes the entity's [Ti]
    instance; a [Some d] slot whose codec [load] returns [Ok c] inserts
    [c] for the entity, replacing any previous instance. *)
Fixpoint spec_bundle_load (entity : Entity) (ids : Closure S M (option Entity))
    (ts : list (Member M E)) : payload ts -> storages ts -> S -> storages ts -> S -> Prop :=
  match ts as l return payload l -> storages l -> S -> storages l -> S -> Prop with
  | [] => fun _ _ s _ s' => s' = s
  | t :: ts' => fun p st s st' s' =>
      (fst p = None /\ fst st' = delete entity (fst st) /\
       spec_bundle_load entity ids ts' (snd p) (snd st) s (snd st') s') \/
      (exists d c s1, fst p = Some d /\
       load (codec t) d ids s = (Ok c, s1) /\ fst st' = <[entity := c]> (fst st) /\
       spec_bundle_load entity ids ts' (snd p) (snd st) s1 (snd st') s')
  end.

End SpecSide.

Arguments spec_bundle_save {M E S} entity ids ts _ _ _ _.
Arguments spec_bundle_load {M E S} entity ids ts _ _ _ _ _.

(* ------------------------------------------------------------------ *)
(** ** Observations on storage tuples *)

Section Observers.

Variables M E : Type.

(** Two storage tuples hold the same instances for every entity other
    than [e]. *)
Fixpoint agree_off (e : Entity) (ts : list (Member M E))
    : storages ts -> storages ts -> Prop :=
  match ts as l return storages l -> storages l -> Prop with
  | [] => fun _ _ => True
  | t :: ts' => fun a b =>
      (forall x, x <> e -> fst a !! x = fst b !! x) /\ agree_off e ts' (snd a) (snd b)
  end.

(** Two storage tuples hold the same instances for entity [e]. *)
Fixpoint agree_at (e : Entity) (ts : list (Member M E))
    : storages ts -> storages ts -> Prop :=
  match ts as l return storages l -> storages l -> Prop with
  | [] => fun _ _ => True
  | t :: ts' => fun a b => fst a !! e = fst b !! e /\ agree_at e ts' (snd a) (snd b)
  end.

(** Entity [e] has no instance of any type of the tuple. *)
Fixpoint absent_at (e : Entity) (ts : list (Member M E)) : storages ts -> Prop :=
  match ts as l return storages l -> Prop with
  | [] => fun _ => True
  | t :: ts' => fun a => fst a !! e = None /\ absent_at e ts' (snd a)
  end.

(** The payload with every slot [None]. *)
Fixpoint none_payload (ts : list (Member M E)) : payload ts :=
  match ts as l return payload l with
  | [] => tt
  | t :: ts' => (None, none_payload ts')
  end.

(** The storages [dst] after entity [e']'s instances are made those
    that entity [e] has in [src] (removed where [e] has none). *)
Fixpoint copy_entity (e e' : Entity) (ts : list (Member M E))
    : storages ts -> storages ts -> storages ts :=
  match ts as l return storages l -> storages l -> storages l with
  | [] => fun _ dst => dst
  | t :: ts' => fun src dst =>
      (match fst src !! e with
       | Some c => <[e' := c]> (fst dst)
       | None => delete e' (fst dst)
       end,
       copy_entity e e' ts' (snd src) (snd dst))
  end.

End Observers.

Arguments agree_off {M E} e ts _ _.
Arguments agree_at {M E} e ts _ _.
Arguments absent_at {M E} e ts _.
Arguments none_payload {M E} ts.
Arguments copy_entity {M E} e e' ts _ _.

(** A codec whose [load] gives back any value its [save] produced,
    whatever the two lookup closures. *)
Definition roundtrips {M} (cd : SaveLoadComponent M) : Prop :=
  forall (S1 S2 : Type) (f : Closure S1 Entity (option M)) (g : Closure S2 M (option Entity))
         c s1 d s1' s2,
    save cd c f s1 = (Ok d, s1') -> exists s2', load cd d g s2 = (Ok c, s2').

(* ------------------------------------------------------------------ *)
(** ** A sample bundle: a position and an entity reference *)

Module Sample.

Inductive LinkError : Type :=
| MissingMarker (target : Entity)
| MissingEntity (marker : nat).

(** A [Link] component holding an entity reference, translated through
    the lookup closure; an unresolved reference is an error. *)
Definition link_component : SaveLoadComponent nat := {|
  Comp := Entity;
  Data := nat;
  Error := LinkError;
  save := fun S target ids s =>
    let '(om, s') := ids target s in
    (match om with Some m => Ok m | None => Err (MissingMarker target) end, s');
  load := fun S m ids s =>
    let '(oe, s') := ids m s in
    (match oe with Some e => Ok e | None => Err (MissingEntity m) end, s')
|}.

Definition never (x : NoError) : LinkError := match x with end.

Definition Pos : Member nat LinkError :=
  {| codec := copy_component nat nat; from := never |}.
Definition Link : Member nat LinkError :=
  {| codec := link_component; from := fun x => x |}.

(** Entity-to-marker lookup: only entity 2 has a marker (20); the
    closure counts its calls. *)
Definition to_marker : Closure nat Entity (option nat) :=
  fun e n => (if Nat.eqb e 2 then Some 20 else None, Nat.succ n).

(** Marker-to-entity lookup: marker 20 resolves to entity 7; counts calls. *)
Definition to_entity : Closure nat nat (option Entity) :=
  fun m n => (if Nat.eqb m 20 then Some 7 else None, Nat.succ n).

Definition bundle3 : list (Member nat LinkError) := [Pos; Link; Pos].

Definition stores_ok : storages bundle3 :=
  ({[1 := 5]}, ({[1 := 2]}, (∅, tt))).

Definition stores_bad : storages bundle3 :=
  ({[1 := 5]}, ({[1 := 3]}, ({[1 := 9]}, tt))).

Example save_ok :
  bundle_save bundle3 1 to_marker (stores_ok, 0)
  = (Ok (Some 5, (Some 20, (None, tt))), (stores_ok, 1)).
Proof. reflexivity. Qed.

Example save_bad :
  bundle_save bundle3 1 to_marker (stores_bad, 0)
  = (Err (MissingMarker 3), (stores_bad, 1)).
Proof. reflexivity. Qed.

Example load_ok :
  bundle_load bundle3 1 (Some 6, (Some 20, (None, tt))) to_entity (stores_bad, 0)
  = (Ok tt, (({[1 := 6]}, ({[1 := 7]}, (∅, tt))), 1)).
Proof. reflexivity. Qed.

Example load_bad :
  bundle_load bundle3 1 (None, (Some 21, (None, tt))) to_entity (stores_bad, 0)
  = (Err (MissingEntity 21), ((∅, ({[1 := 3]}, ({[1 := 9]}, tt))), 1)).
Proof. reflexivity. Qed.

End Sample.

(* ------------------------------------------------------------------ *)
(** ** Unfolding lemmas *)

Section Laws.

Context {M E S : Type}.

Ltac run_monad :=
  unfold save_slot, load_slot, try_, bind, ret, on_head, on_tail, with_ids, get_st,
    insert_st, remove_st; cbn.

(** [Components::save] only reads the storages: they come back as they
    were, whatever the result. *)
Lemma bundle_save_frame (ts : list (Member M E)) entity
    (ids : Closure S Entity (option M)) st s :
  exists r s', bundle_save ts entity ids (st, s) = (r, (st, s')).
Proof.
  revert st s; induction ts as [|t ts IH]; intros st s.
  - by exists (Ok tt), s.
  - destruct st as [h st]. cbn. run_monad.
    destruct (h !! entity) as [c|]; cbn.
    + destruct (save (codec t) c ids s) as [[d|er] s1]; cbn.
      * destruct (IH st s1) as (r & s' & ->).
        destruct r; eauto.
      * eauto.
    + destruct (IH st s) as (r & s' & ->).
      destruct r; eauto.
Qed.

(** Saving [pre ++ post] saves [pre], then [post] unless [pre] failed. *)
Lemma bundle_save_app (pre post : list (Member M E)) entity
    (ids : Closure S Entity (option M)) stpre stpost s :
  bundle_save (pre ++ post) entity ids (st_app pre post stpre stpost, s) =
  match bundle_save pre entity ids (stpre, s) with
  | (Ok p1, (st1, s1)) =>
      match bundle_save post entity ids (stpost, s1) with
      | (Ok p2, (st2, s2)) => (Ok (pl_app pre post p1 p2), (st_app pre post st1 st2, s2))
      | (Err er, (st2, s2)) => (Err er, (st_app pre post st1 st2, s2))
      end
  | (Err er, (st1, s1)) => (Err er, (st_app pre post st1 stpost, s1))
  end.
Proof.
  revert stpre s; induction pre as [|t pre IH]; intros stpre s; cbn.
  - destruct (bundle_save post entity ids (stpost, s)) as [[p2|er] [st2 s2]]; done.
  - destruct stpre as [h stpre]. run_monad.
    destruct (h !! entity) as [c|]; cbn.
    + destruct (save (codec t) c ids s) as [[d|er] s1]; cbn; [|done].
      rewrite IH.
      destruct (bundle_save pre entity ids (stpre, s1)) as [[p1|er] [st1 s2]]; cbn; [|done].
      destruct (bundle_save post entity ids (stpost, s2)) as [[p2|er] [st2 s3]]; done.
    + rewrite IH.
      destruct (bundle_save pre entity ids (stpre, s)) as [[p1|er] [st1 s2]]; cbn; [|done].
      destruct (bundle_save post entity ids (stpost, s2)) as [[p2|er] [st2 s3]]; done.
Qed.

(** Loading [pre ++ post] loads [pre], then [post] unless [pre] failed. *)
Lemma bundle_load_app (pre post : list (Member M E)) entity ppre ppost
    (ids : Closure S M (option Entity)) stpre stpost s :
  bundle_load (pre ++ post) entity (pl_app pre post ppre ppost) ids
    (st_app pre post stpre stpost, s) =
  match bundle_load pre entity ppre ids (stpre, s) with
  | (Ok _, (st1, s1)) =>
      let '(r, (st2, s2)) := bundle_load post entity ppost ids (stpost, s1) in
      (r, (st_app pre post st1 st2, s2))
  | (Err er, (st1, s1)) => (Err er, (st_app pre post st1 stpost, s1))
  end.
Proof.
  revert ppre stpre s; induction pre as [|t pre IH]; intros ppre stpre s; cbn.
  - destruct (bundle_load post entity ppost ids (stpost, s)) as [r [st2 s2]]; done.
  - destruct stpre as [h stpre], ppre as [slot ppre]. run_monad.
    destruct slot as [d|]; cbn.
    + destruct (load (codec t) d ids s) as [[c|er] s1]; cbn; [|done].
      rewrite IH.
      destruct (bundle_load pre entity ppre ids (stpre, s1)) as [[[]|er] [st1 s2]]; cbn; [|done].
      destruct (bundle_load post entity ppost ids (stpost, s2)) as [r [st2 s3]]; done.
    + rewrite IH.
      destruct (bundle_load pre entity ppre ids (stpre, s)) as [[[]|er] [st1 s2]]; cbn; [|done].
      destruct (bundle_load post entity ppost ids (stpost, s2)) as [r [st2 s3]]; done.
Qed.

End Laws.

(* ------------------------------------------------------------------ *)
(** ** Bundle save and load, slot by slot *)

Section Bundle.

Context {M E S : Type}.

Ltac run_monad :=
  unfold save_slot, load_slot, try_, bind, ret, on_head, on_tail, with_ids, get_st,
    insert_st, remove_st; cbn.

(** C1. Bundle save returns [Ok] of a payload exactly when, for each
    type [Ti] in order, slot [i] is [None] if the entity has no [Ti]
    instance and [Some] of the [Ti] codec's [save] of that instance if
    it has one (every such [save] succeeding), the lookup closure's
    state flowing through the slots in order. *)
Theorem bundle_save_slots (ts : list (Member M E)) entity
    (ids : Closure S Entity (option M)) st s p s' :
  bundle_save ts entity ids (st, s) = (Ok p, (st, s')) <->
  spec_bundle_save entity ids ts st s p s'.
Proof.
  revert st s p; induction ts as [|t ts IH]; intros st s p.
  - destruct st, p; cbn. split; [by intros [= ->] | by intros ->].
  - destruct st as [h st], p as [x p]. cbn. setoid_rewrite <- IH.
    run_monad.
    destruct (h !! entity) as [c|] eqn:Hc; cbn.
    + destruct (save (codec t) c ids s) as [[d|er] s1] eqn:Hs; cbn.
      * destruct (bundle_save_frame ts entity ids st s1) as (r & s2 & Hr).
        rewrite Hr. destruct r as [p'|er]; cbn; split.
        -- intros [= <- <- <-]. right. by exists c, d, s1.
        -- intros [(? & _ & _) | (c0 & d0 & s0 & [= <-] & Hs0 & -> & Hr0)]; [done|].
           rewrite Hs in Hs0. injection Hs0 as <- <-.
           rewrite Hr in Hr0. by injection Hr0 as <- <-.
        -- done.
        -- intros [(? & _ & _) | (c0 & d0 & s0 & [= <-] & Hs0 & -> & Hr0)]; [done|].
           rewrite Hs in Hs0. injection Hs0 as <- <-.
           by rewrite Hr in Hr0.
      * split; [done|].
        intros [(? & _ & _) | (c0 & d0 & s0 & [= <-] & Hs0 & _)]; [done|].
        by rewrite Hs in Hs0.
    + destruct (bundle_save_frame ts entity ids st s) as (r & s2 & Hr).
      rewrite Hr. destruct r as [p'|er]; cbn; split.
      * intros [= <- <- <-]. by left.
      * intros [(_ & -> & Hr0) | (c0 & _ & _ & [=] & _)].
        rewrite ?Hr in Hr0. by injection Hr0 as <- <-.
      * done.
      * intros [(_ & -> & Hr0) | (c0 & _ & _ & [=] & _)].
        by rewrite ?Hr in Hr0.
Qed.

(** C2. Bundle load returns [Ok(())] exactly when, for each type [Ti]
    in order, a [None] slot removes the entity's [Ti] instance and a
    [Some d] slot inserts the result [c] of the [Ti] codec's [load] of
    [d] (every such [load] succeeding), replacing any earlier instance. *)
Theorem bundle_load_slots (ts : list (Member M E)) entity (p : payload ts)
    (ids : Closure S M (option Entity)) st s st' s' :
  bundle_load ts entity p ids (st, s) = (Ok tt, (st', s')) <->
  spec_bundle_load entity ids ts p st s st' s'.
Proof.
  revert p st s st'; induction ts as [|t ts IH]; intros p st s st'.
  - destruct st, st', p; cbn. split; [by intros [= ->] | by intros ->].
  - destruct st as [h st], st' as [h' st'], p as [x p]. cbn. setoid_rewrite <- IH.
    run_monad.
    destruct x as [d|]; cbn.
    + destruct (load (codec t) d ids s) as [[c|er] s1] eqn:Hl; cbn.
      * destruct (bundle_load ts entity p ids (st, s1)) as [[[]|er] [st2 s2]] eqn:Hr;
          cbn; split.
        -- intros [= <- <- <-]. right. by exists d, c, s1.
        -- intros [(Hx & _ & _) | (d0 & c0 & s0 & Hx & Hl0 & -> & Hr0)]; [discriminate|].
           injection Hx as <-. rewrite Hl in Hl0. injection Hl0 as <- <-.
           rewrite ?Hr in Hr0. by injection Hr0 as <- <-.
        -- done.
        -- intros [(Hx & _ & _) | (d0 & c0 & s0 & Hx & Hl0 & _ & Hr0)]; [discriminate|].
           injection Hx as <-. rewrite Hl in Hl0. injection Hl0 as <- <-.
           rewrite ?Hr in Hr0. discriminate.
      * split; [done|].
        intros [(Hx & _ & _) | (d0 & c0 & s0 & Hx & Hl0 & _)]; [discriminate|].
        injection Hx as <-. rewrite Hl in Hl0. discriminate.
    + destruct (bundle_load ts entity p ids (st, s)) as [[[]|er] [st2 s2]] eqn:Hr;
        cbn; split.
      * intros [= <- <- <-]. by left.
      * intros [(_ & -> & Hr0) | (d0 & _ & _ & Hx & _)]; [|discriminate].
        rewrite ?Hr in Hr0. by injection Hr0 as <- <-.
      * done.
      * intros [(_ & _ & Hr0) | (d0 & _ & _ & Hx & _)]; [|discriminate].
        rewrite ?Hr in Hr0. discriminate.
Qed.

End Bundle.

(* ------------------------------------------------------------------ *)
(** ** Errors, frames, and the entry points *)

Section Effects.

Context {M E S : Type}.

Ltac run_monad :=
  unfold save_slot, load_slot, try_, bind, ret, on_head, on_tail, with_ids, get_st,
    insert_st, remove_st; cbn.

(** C3. Save fails fast: when every type before [Ti] saves successfully
    and the entity's [Ti] instance fails to save with [er], the bundle
    save of [pre ++ Ti :: post] returns [Err (E::from er)] and no
    payload; the types after [Ti] are never visited (the lookup
    closure is left as [Ti]'s save left it) and no storage changes. *)
Theorem bundle_save_first_error (pre : list (Member M E)) (t : Member M E)
    (post : list (Member M E)) entity (ids : Closure S Entity (option M))
    stpre ppre s s0 (h : Storage (Comp (codec t))) stpost c er s1 :
  bundle_save pre entity ids (stpre, s) = (Ok ppre, (stpre, s0)) ->
  h !! entity = Some c ->
  save (codec t) c ids s0 = (Err er, s1) ->
  bundle_save (pre ++ t :: post) entity ids
    (st_app pre (t :: post) stpre (h, stpost), s)
  = (Err (from t er), (st_app pre (t :: post) stpre (h, stpost), s1)).
Proof.
  intros Hpre Hc Hs. rewrite bundle_save_app, Hpre. cbn. run_monad.
  rewrite Hc. cbn. rewrite Hs. reflexivity.
Qed.

(** C4. Load is not transactional: when every type before [Ti] loads
    successfully, turning the storages [stpre] into [stpre'], and the
    [Ti] codec fails to load slot [Some d] with [er], the bundle load
    of [pre ++ Ti :: post] returns [Err (E::from er)] with the earlier
    types' storages left at [stpre'] and those of [Ti] and of every
    later type as they were. *)
Theorem bundle_load_no_rollback (pre : list (Member M E)) (t : Member M E)
    (post : list (Member M E)) entity ppre d ppost
    (ids : Closure S M (option Entity)) stpre stpre' s s0
    (h : Storage (Comp (codec t))) stpost er s1 :
  bundle_load pre entity ppre ids (stpre, s) = (Ok tt, (stpre', s0)) ->
  load (codec t) d ids s0 = (Err er, s1) ->
  bundle_load (pre ++ t :: post) entity (pl_app pre (t :: post) ppre (Some d, ppost)) ids
    (st_app pre (t :: post) stpre (h, stpost), s)
  = (Err (from t er), (st_app pre (t :: post) stpre' (h, stpost), s1)).
Proof.
  intros Hpre Hl. rewrite bundle_load_app, Hpre. cbn. run_monad.
  rewrite Hl. reflexivity.
Qed.

(** C10. The failing type's own storage is untouched: a [Some d] slot
    whose codec [load] fails returns the converted error before any
    insert, both for the slot alone and inside a bundle, where the
    partial update stops strictly before [Ti]. *)
Theorem load_error_before_insert (pre : list (Member M E)) (t : Member M E)
    (post : list (Member M E)) entity ppre d ppost
    (ids : Closure S M (option Entity)) stpre stpre' s s0
    (h : Storage (Comp (codec t))) stpost er s1 :
  bundle_load pre entity ppre ids (stpre, s) = (Ok tt, (stpre', s0)) ->
  load (codec t) d ids s0 = (Err er, s1) ->
  load_slot t entity (Some d) ids (h, s0) = (Err (from t er), (h, s1)) /\
  bundle_load (pre ++ t :: post) entity (pl_app pre (t :: post) ppre (Some d, ppost)) ids
    (st_app pre (t :: post) stpre (h, stpost), s)
  = (Err (from t er), (st_app pre (t :: post) stpre' (h, stpost), s1)).
Proof.
  intros Hpre Hl. split.
  - run_monad. rewrite Hl. reflexivity.
  - rewrite bundle_load_app, Hpre. cbn. run_monad. rewrite Hl. reflexivity.
Qed.

(** C7. Bundle save leaves every storage as it was, whether it
    succeeds or fails. *)
Theorem bundle_save_no_mutation (ts : list (Member M E)) entity
    (ids : Closure S Entity (option M)) st s :
  fst (snd (bundle_save ts entity ids (st, s))) = st.
Proof.
  destruct (bundle_save_frame ts entity ids st s) as (r & s' & ->). done.
Qed.

(** C8. The empty tuple: save returns [Ok(())] and load returns
    [Ok(())], neither touching storages nor calling the lookup. *)
Theorem empty_bundle_noop entity (save_ids : Closure S Entity (option M))
    (load_ids : Closure S M (option Entity))
    (st : storages ([] : list (Member M E))) (p : payload ([] : list (Member M E))) s :
  bundle_save [] entity save_ids (st, s) = (Ok tt, (st, s)) /\
  bundle_load [] entity p load_ids (st, s) = (Ok tt, (st, s)).
Proof. destruct st. split; reflexivity. Qed.

(** C9. [save_entity_record] pairs the given marker with the payload of
    bundle save (or returns its error), and [load_entity_record] is
    bundle load of the record's payload onto the resolved entity. *)
Theorem entity_record_entry_points (ts : list (Member M E)) entity (m : M)
    (save_ids : Closure S Entity (option M)) (record : EntityData M E ts)
    (entity_for_marker : Entity) (load_ids : Closure S M (option Entity)) st s :
  save_entity_record ts entity m save_ids (st, s) =
    match bundle_save ts entity save_ids (st, s) with
    | (Ok p, w) => (Ok {| marker := m; components := p |}, w)
    | (Err er, w) => (Err er, w)
    end /\
  load_entity_record ts record entity_for_marker load_ids (st, s) =
    bundle_load ts entity_for_marker (components record) load_ids (st, s).
Proof.
  split; [|reflexivity].
  unfold save_entity_record, bind.
  destruct (bundle_save ts entity save_ids (st, s)) as [[p|er] w]; reflexivity.
Qed.

End Effects.

(* ------------------------------------------------------------------ *)
(** ** The pass-through codec *)

Section CopyComponent.

Context {M : Type}.

(** C5. For a [Copy] component, [save] is [Ok] of the value and [load]
    is [Ok] of the data, the lookup closure is never called (its state
    is unchanged and any other closure gives the same result), and
    [load(save(c, f), g) = Ok(c)]. *)
Theorem copy_component_roundtrip (C S1 S2 : Type) (f : Closure S1 Entity (option M))
    (g : Closure S2 M (option Entity)) (c : C) (s1 : S1) (s2 : S2) :
  save (copy_component M C) c f s1 = (Ok c, s1) /\
  load (copy_component M C) c g s2 = (Ok c, s2) /\
  (forall f' : Closure S1 Entity (option M),
     save (copy_component M C) c f' s1 = save (copy_component M C) c f s1) /\
  (forall g' : Closure S2 M (option Entity),
     load (copy_component M C) c g' s2 = load (copy_component M C) c g s2) /\
  match save (copy_component M C) c f s1 with
  | (Ok d, _) => fst (load (copy_component M C) d g s2) = Ok c
  | (Err _, _) => False
  end.
Proof. repeat split. Qed.

(** C6. The pass-through codec's error type [NoError] has no value, and
    its [save] and [load] return [Ok] on every input. *)
Theorem copy_component_never_fails (C : Type) :
  (forall er : Error (copy_component M C), False) /\
  (forall (S : Type) (c : C) (f : Closure S Entity (option M)) s,
     exists d s', save (copy_component M C) c f s = (Ok d, s')) /\
  (forall (S : Type) (d : C) (g : Closure S M (option Entity)) s,
     exists c s', load (copy_component M C) d g s = (Ok c, s')).
Proof.
  split; [|split].
  - intros [].
  - intros S c f s. by exists c, s.
  - intros S d g s. by exists d, s.
Qed.

End CopyComponent.

(* ------------------------------------------------------------------ *)
(** ** The failure theorems at a sample bundle [(Pos, Link, Pos)] *)

Module Witnesses.

Import Sample.

Definition pos_store (m : gmap nat nat) : Storage (Comp (codec Pos)) := m.
Definition link_store (m : gmap nat nat) : Storage (Comp (codec Link)) := m.

(** Entity 1 links to entity 3, which has no marker: [Link]'s save
    fails after [Pos] saved, and the last [Pos] is never reached. *)
Lemma bundle_save_first_error_witness :
  bundle_save [Pos] 1 to_marker ((pos_store {[1 := 5]}, tt), 0)
    = (Ok (Some 5, tt), ((pos_store {[1 := 5]}, tt), 0)) /\
  bundle_save ([Pos] ++ Link :: [Pos]) 1 to_marker
    (st_app [Pos] (Link :: [Pos]) (pos_store {[1 := 5]}, tt)
       (link_store {[1 := 3]}, (pos_store {[1 := 9]}, tt)), 0)
  = (Err (MissingMarker 3),
     (st_app [Pos] (Link :: [Pos]) (pos_store {[1 := 5]}, tt)
        (link_store {[1 := 3]}, (pos_store {[1 := 9]}, tt)), 1)).
Proof.
  split; [reflexivity|].
  apply (bundle_save_first_error [Pos] Link [Pos] 1 to_marker
           (pos_store {[1 := 5]}, tt) (Some 5, tt) 0 0
           (link_store {[1 := 3]}) (pos_store {[1 := 9]}, tt) 3 (MissingMarker 3) 1);
    reflexivity.
Defined.

(** The first [Pos] slot is [None] (its instance is removed); marker 21
    does not resolve, so [Link]'s load fails; [Link]'s and the last
    [Pos]'s storages keep their instances. *)
Lemma bundle_load_no_rollback_witness :
  bundle_load [Pos] 1 (None, tt) to_entity ((pos_store {[1 := 5]}, tt), 0)
    = (Ok tt, ((pos_store ∅, tt), 0)) /\
  bundle_load ([Pos] ++ Link :: [Pos]) 1
    (pl_app [Pos] (Link :: [Pos]) (None, tt) (Some 21, (None, tt))) to_entity
    (st_app [Pos] (Link :: [Pos]) (pos_store {[1 := 5]}, tt)
       (link_store {[1 := 3]}, (pos_store {[1 := 9]}, tt)), 0)
  = (Err (MissingEntity 21),
     (st_app [Pos] (Link :: [Pos]) (pos_store ∅, tt)
        (link_store {[1 := 3]}, (pos_store {[1 := 9]}, tt)), 1)).
Proof.
  split; [reflexivity|].
  apply (bundle_load_no_rollback [Pos] Link [Pos] 1 (None, tt) 21 (None, tt) to_entity
           (pos_store {[1 := 5]}, tt) (pos_store ∅, tt) 0 0
           (link_store {[1 := 3]}) (pos_store {[1 := 9]}, tt) (MissingEntity 21) 1);
    reflexivity.
Defined.

Lemma load_error_before_insert_witness :
  bundle_load [Pos] 1 (None, tt) to_entity ((pos_store {[1 := 5]}, tt), 0)
    = (Ok tt, ((pos_store ∅, tt), 0)) /\
  load_slot Link 1 (Some 21) to_entity (link_store {[1 := 3]}, 0)
    = (Err (MissingEntity 21), (link_store {[1 := 3]}, 1)) /\
  bundle_load ([Pos] ++ Link :: [Pos]) 1
    (pl_app [Pos] (Link :: [Pos]) (None, tt) (Some 21, (None, tt))) to_entity
    (st_app [Pos] (Link :: [Pos]) (pos_store {[1 := 5]}, tt)
       (link_store {[1 := 3]}, (pos_store {[1 := 9]}, tt)), 0)
  = (Err (MissingEntity 21),
     (st_app [Pos] (Link :: [Pos]) (pos_store ∅, tt)
        (link_store {[1 := 3]}, (pos_store {[1 := 9]}, tt)), 1)).
Proof.
  split; [reflexivity|].
  apply (load_error_before_insert [Pos] Link [Pos] 1 (None, tt) 21 (None, tt) to_entity
           (pos_store {[1 := 5]}, tt) (pos_store ∅, tt) 0 0
           (link_store {[1 := 3]}) (pos_store {[1 := 9]}, tt) (MissingEntity 21) 1);
    reflexivity.
Defined.

End Witnesses.

(* ------------------------------------------------------------------ *)
(** ** Further properties of [Components::save] and [Components::load] *)

Section Further.

Context {M E S : Type}.

Ltac run_monad :=
  unfold save_slot, load_slot, try_, bind, ret, on_head, on_tail, with_ids, get_st,
    insert_st, remove_st; cbn.

Lemma agree_off_refl e (ts : list (Member M E)) st : agree_off e ts st st.
Proof. induction ts as [|t ts IH]; cbn; [done|]. split; [done|]. apply IH. Qed.

(** Bundle load only ever changes entity [e]'s instances: every other
    entity keeps its instances in every storage, whatever the result. *)
Theorem bundle_load_only_entity (ts : list (Member M E)) entity (p : payload ts)
    (ids : Closure S M (option Entity)) st s :
  agree_off entity ts st (fst (snd (bundle_load ts entity p ids (st, s)))).
Proof.
  revert p st s; induction ts as [|t ts IH]; intros p st s; cbn; [done|].
  destruct st as [h st], p as [slot p]. run_monad.
  destruct slot as [d|]; cbn.
  - destruct (load (codec t) d ids s) as [[c|er] s1]; cbn.
    + specialize (IH p st s1).
      destruct (bundle_load ts entity p ids (st, s1)) as [r [st2 s2]]; cbn in *.
      split; [|done]. intros x Hx. by rewrite lookup_insert_ne.
    + split; [done|]. apply agree_off_refl.
  - specialize (IH p st s).
    destruct (bundle_load ts entity p ids (st, s)) as [r [st2 s2]]; cbn in *.
    split; [|done]. intros x Hx. by rewrite lookup_delete_ne.
Qed.

(** Bundle save reads only entity [e]'s instances: two storage tuples
    that agree on [e] give the same result and the same closure state. *)
Theorem bundle_save_reads_only_entity (ts : list (Member M E)) entity
    (ids : Closure S Entity (option M)) st1 st2 s :
  agree_at entity ts st1 st2 ->
  fst (bundle_save ts entity ids (st1, s)) = fst (bundle_save ts entity ids (st2, s)) /\
  snd (snd (bundle_save ts entity ids (st1, s))) = snd (snd (bundle_save ts entity ids (st2, s))).
Proof.
  revert st1 st2 s; induction ts as [|t ts IH]; intros st1 st2 s Hag; cbn; [done|].
  destruct st1 as [h1 st1], st2 as [h2 st2], Hag as [Hh Hag]. cbn in Hh.
  run_monad. rewrite Hh.
  destruct (h2 !! entity) as [c|]; cbn.
  - destruct (save (codec t) c ids s) as [[d|er] s1]; cbn; [|done].
    destruct (IH st1 st2 s1 Hag) as [Hr Hs].
    destruct (bundle_save ts entity ids (st1, s1)) as [r1 [a1 s1']],
             (bundle_save ts entity ids (st2, s1)) as [r2 [a2 s2']]; cbn in *.
    subst. by destruct r2.
  - destruct (IH st1 st2 s Hag) as [Hr Hs].
    destruct (bundle_save ts entity ids (st1, s)) as [r1 [a1 s1']],
             (bundle_save ts entity ids (st2, s)) as [r2 [a2 s2']]; cbn in *.
    subst. by destruct r2.
Qed.

(** Saving an entity that has no instance of any type of the tuple
    succeeds with the all-[None] payload without calling the lookup. *)
Theorem bundle_save_absent (ts : list (Member M E)) entity
    (ids : Closure S Entity (option M)) st s :
  absent_at entity ts st ->
  bundle_save ts entity ids (st, s) = (Ok (none_payload ts), (st, s)).
Proof.
  revert st; induction ts as [|t ts IH]; intros st Hab; cbn; [by destruct st|].
  destruct st as [h st], Hab as [Hh Hab]. cbn in Hh.
  run_monad. rewrite Hh. cbn. by rewrite (IH st Hab).
Qed.

(** Loading the all-[None] payload always succeeds, never calls the
    lookup, removes entity [e] from every storage and leaves every
    other entity as it was. *)
Theorem bundle_load_none_payload (ts : list (Member M E)) entity
    (ids : Closure S M (option Entity)) st s :
  exists st', bundle_load ts entity (none_payload ts) ids (st, s) = (Ok tt, (st', s)) /\
              absent_at entity ts st' /\ agree_off entity ts st st'.
Proof.
  revert st; induction ts as [|t ts IH]; intros st; cbn.
  - by exists st.
  - destruct st as [h st]. run_monad.
    destruct (IH st) as (st' & -> & Hab & Hag). cbn.
    exists (delete entity h, st'). split; [done|]. cbn. split.
    + split; [apply lookup_delete_eq|done].
    + split; [|done]. intros x Hx. by rewrite lookup_delete_ne.
Qed.

End Further.

Section Further2.

Context {M E S : Type}.

Ltac run_monad :=
  unfold save_slot, load_slot, try_, bind, ret, on_head, on_tail, with_ids, get_st,
    insert_st, remove_st; cbn.



(** A tuple whose component error types are all empty (such as a tuple
    of pass-through components) can never fail to save. *)
Theorem bundle_save_infallible (ts : list (Member M E)) entity
    (ids : Closure S Entity (option M)) st s :
  (forall t, In t ts -> Error (codec t) -> False) ->
  exists p s', bundle_save ts entity ids (st, s) = (Ok p, (st, s')).
Proof.
  revert st s; induction ts as [|t ts IH]; intros st s Hne; cbn; [by exists tt, s|].
  destruct st as [h st]. run_monad.
  assert (Hts : forall t', In t' ts -> Error (codec t') -> False)
    by (intros t' Hin; apply Hne; by right).
  destruct (h !! entity) as [c|]; cbn.
  - destruct (save (codec t) c ids s) as [[d|er] s1]; cbn.
    + destruct (IH st s1 Hts) as (p & s' & ->). cbn. eauto.
    + exfalso. apply (Hne t); [by left|exact er].
  - destruct (IH st s Hts) as (p & s' & ->). cbn. eauto.
Qed.

(** A tuple whose component error types are all empty can never fail
    to load, whatever the payload. *)
Theorem bundle_load_infallible (ts : list (Member M E)) entity (p : payload ts)
    (ids : Closure S M (option Entity)) st s :
  (forall t, In t ts -> Error (codec t) -> False) ->
  exists st' s', bundle_load ts entity p ids (st, s) = (Ok tt, (st', s')).
Proof.
  revert p st s; induction ts as [|t ts IH]; intros p st s Hne; cbn; [by exists st, s|].
  destruct st as [h st], p as [slot p]. run_monad.
  assert (Hts : forall t', In t' ts -> Error (codec t') -> False)
    by (intros t' Hin; apply Hne; by right).
  destruct slot as [d|]; cbn.
  - destruct (load (codec t) d ids s) as [[c|er] s1]; cbn.
    + destruct (IH p st s1 Hts) as (st' & s' & ->). cbn. eauto.
    + exfalso. apply (Hne t); [by left|exact er].
  - destruct (IH p st s Hts) as (st' & s' & ->). cbn. eauto.
Qed.

End Further2.

Section Further3.

Context {M E : Type}.

Ltac run_monad :=
  unfold save_slot, load_slot, try_, bind, ret, on_head, on_tail, with_ids, get_st,
    insert_st, remove_st; cbn.

Lemma copy_component_roundtrips (C : Type) : roundtrips (copy_component M C).
Proof. intros S1 S2 f g c s1 d s1' s2 [= <- _]. by exists s2. Qed.

Lemma copy_entity_self e (ts : list (Member M E)) st : copy_entity e e ts st st = st.
Proof.
  induction ts as [|t ts IH]; cbn; [done|]. destruct st as [h st]. cbn.
  rewrite IH. destruct (h !! e) eqn:He.
  - by rewrite insert_id.
  - by rewrite delete_id.
Qed.

Lemma bundle_roundtrip {S1 S2} (ts : list (Member M E)) e e'
    (f : Closure S1 Entity (option M)) (g : Closure S2 M (option Entity)) st s p s' st' s2 :
  Forall (fun t => roundtrips (codec t)) ts ->
  bundle_save ts e f (st, s) = (Ok p, (st, s')) ->
  exists s2', bundle_load ts e' p g (st', s2) = (Ok tt, (copy_entity e e' ts st st', s2')).
Proof.
  revert st s p st' s2; induction ts as [|t ts IH];
    intros st s p st' s2 Hrt Hsave; cbn; [by exists s2|].
  apply Forall_cons in Hrt as [Ht Hrt].
  destruct st as [h st], p as [x p], st' as [h' st']. cbn.
  revert Hsave; cbn; run_monad.
  destruct (h !! e) as [c|] eqn:Hc; cbn.
  - destruct (save (codec t) c f s) as [[d|er] s1] eqn:Hs; cbn; [|by intros [=]].
    destruct (bundle_save_frame ts e f st s1) as (r & s3 & Htl). rewrite Htl.
    destruct r as [p'|er]; cbn; [|by intros [=]].
    intros [= <- <- <-]. cbn.
    destruct (Ht _ _ f g c s d s1 s2 Hs) as [s2a Hl]. rewrite Hl. cbn.
    destruct (IH st s1 p' st' s2a Hrt Htl) as [s2' ->]. cbn. by exists s2'.
  - destruct (bundle_save_frame ts e f st s) as (r & s3 & Htl). rewrite Htl.
    destruct r as [p'|er]; cbn; [|by intros [=]].
    intros [= <- <- <-]. cbn.
    destruct (IH st s p' st' s2 Hrt Htl) as [s2' ->]. cbn. by exists s2'.
Qed.

(** Save then load onto another entity copies the instances: when every
    component type's codec gives back what it saved, loading the payload
    saved from entity [e] onto entity [e'] succeeds, and each storage
    then holds [e]'s instance for [e'] (or none where [e] had none). *)
Theorem bundle_save_load_copies {S1 S2} (ts : list (Member M E)) e e'
    (f : Closure S1 Entity (option M)) (g : Closure S2 M (option Entity)) st s p s' st' s2 :
  Forall (fun t => roundtrips (codec t)) ts ->
  bundle_save ts e f (st, s) = (Ok p, (st, s')) ->
  exists s2', bundle_load ts e' p g (st', s2) = (Ok tt, (copy_entity e e' ts st st', s2')).
Proof. apply bundle_roundtrip. Qed.

(** Save then load onto the same entity restores the storages exactly,
    when every component type's codec gives back what it saved. *)
Theorem bundle_save_load_restores {S1 S2} (ts : list (Member M E)) e
    (f : Closure S1 Entity (option M)) (g : Closure S2 M (option Entity)) st s p s' s2 :
  Forall (fun t => roundtrips (codec t)) ts ->
  bundle_save ts e f (st, s) = (Ok p, (st, s')) ->
  exists s2', bundle_load ts e p g (st, s2) = (Ok tt, (st, s2')).
Proof.
  intros Hrt Hsave.
  destruct (bundle_roundtrip ts e e f g st s p s' st s2 Hrt Hsave) as [s2' Hl].
  rewrite copy_entity_self in Hl. by exists s2'.
Qed.

End Further3.

Section Further4.

Context {M E S : Type}.

Lemma st_app_inj (pre post : list (Member M E)) a a' b b' :
  st_app pre post a b = st_app pre post a' b' -> a = a' /\ b = b'.
Proof.
  revert a a'; induction pre as [|t pre IH]; intros a a' H; cbn in *.
  - by destruct a, a'.
  - destruct a as [h a], a' as [h' a']. cbn in H. injection H as -> H.
    by destruct (IH a a' H) as [-> ->].
Qed.

(** Saving a concatenated tuple [pre ++ post] succeeds exactly when
    saving [pre] and then [post] (the closure state carried over)
    succeed; the payload is the concatenation of the two payloads. *)
Theorem bundle_save_concat (pre post : list (Member M E)) entity
    (ids : Closure S Entity (option M)) stpre stpost s p s' :
  bundle_save (pre ++ post) entity ids (st_app pre post stpre stpost, s)
    = (Ok p, (st_app pre post stpre stpost, s')) <->
  exists p1 p2 s1, p = pl_app pre post p1 p2 /\
    bundle_save pre entity ids (stpre, s) = (Ok p1, (stpre, s1)) /\
    bundle_save post entity ids (stpost, s1) = (Ok p2, (stpost, s')).
Proof.
  rewrite bundle_save_app.
  destruct (bundle_save_frame pre entity ids stpre s) as (r1 & s1 & ->).
  destruct r1 as [p1|er]; cbn.
  - destruct (bundle_save_frame post entity ids stpost s1) as (r2 & s2 & Hpost).
    rewrite Hpost. destruct r2 as [p2|er]; cbn; split.
    + intros [= <- <-]. by exists p1, p2, s1.
    + intros (p1' & p2' & s1' & -> & [= <- <-] & Hp). rewrite Hpost in Hp.
      by injection Hp as <- <-.
    + by intros [=].
    + intros (p1' & p2' & s1' & -> & [= <- <-] & Hp). by rewrite Hpost in Hp.
  - split; [by intros [=]|]. by intros (? & ? & ? & _ & [=] & _).
Qed.

(** Loading a concatenated tuple [pre ++ post] with the concatenated
    payload succeeds exactly when loading [pre] and then [post] (the
    closure state carried over) succeed, with the same final storages. *)
Theorem bundle_load_concat (pre post : list (Member M E)) entity ppre ppost
    (ids : Closure S M (option Entity)) stpre stpost s stpre' stpost' s' :
  bundle_load (pre ++ post) entity (pl_app pre post ppre ppost) ids
    (st_app pre post stpre stpost, s) = (Ok tt, (st_app pre post stpre' stpost', s')) <->
  exists s1,
    bundle_load pre entity ppre ids (stpre, s) = (Ok tt, (stpre', s1)) /\
    bundle_load post entity ppost ids (stpost, s1) = (Ok tt, (stpost', s')).
Proof.
  rewrite bundle_load_app.
  destruct (bundle_load pre entity ppre ids (stpre, s)) as [[[]|er] [st1 s1]]; cbn.
  - destruct (bundle_load post entity ppost ids (stpost, s1)) as [[[]|er] [st2 s2]]
      eqn:Hpost; cbn; split.
    + intros [= Hst <-]. apply st_app_inj in Hst as [-> ->]. by exists s1.
    + intros (s1' & [= <- <-] & Hp). rewrite Hpost in Hp.
      by injection Hp as <- <-.
    + by intros [=].
    + intros (s1' & [= <- <-] & Hp). by rewrite Hpost in Hp.
  - split; [by intros [=]|]. by intros (? & [=] & _).
Qed.

End Further4.

(* ------------------------------------------------------------------ *)
(** ** The further properties at sample inputs *)

Module FurtherWitnesses.

Import Sample.

Definition pos2 : list (Member nat LinkError) := [Pos; Pos].

Definition pos2_stores : storages pos2 := ({[1 := 5; 4 := 8]}, ({[4 := 9]}, tt)).

(** [stores_ok] with entity 4's instances added: it agrees with
    [stores_ok] on entity 1. *)
Definition stores_more : storages bundle3 :=
  ({[1 := 5; 4 := 6]}, ({[1 := 2; 4 := 3]}, ({[4 := 1]}, tt))).

Lemma bundle_save_reads_only_entity_witness :
  agree_at 1 bundle3 stores_ok stores_more /\
  fst (bundle_save bundle3 1 to_marker (stores_ok, 0))
    = fst (bundle_save bundle3 1 to_marker (stores_more, 0)) /\
  snd (snd (bundle_save bundle3 1 to_marker (stores_ok, 0)))
    = snd (snd (bundle_save bundle3 1 to_marker (stores_more, 0))).
Proof.
  assert (H : agree_at 1 bundle3 stores_ok stores_more) by (cbn; repeat split).
  split; [exact H|]. apply (bundle_save_reads_only_entity bundle3 1 to_marker _ _ 0 H).
Defined.

Lemma bundle_save_absent_witness :
  absent_at 2 bundle3 stores_more /\
  bundle_save bundle3 2 to_marker (stores_more, 0) = (Ok (none_payload bundle3), (stores_more, 0)).
Proof.
  assert (H : absent_at 2 bundle3 stores_more) by (cbn; repeat split).
  split; [exact H|]. apply (bundle_save_absent bundle3 2 to_marker stores_more 0 H).
Defined.



Lemma pos2_no_error : forall t, In t pos2 -> Error (codec t) -> False.
Proof. intros t [<-|[<-|[]]] []. Qed.

Lemma bundle_save_infallible_witness :
  (forall t, In t pos2 -> Error (codec t) -> False) /\
  exists p s', bundle_save pos2 1 to_marker (pos2_stores, 0) = (Ok p, (pos2_stores, s')).
Proof.
  split; [exact pos2_no_error|].
  apply (bundle_save_infallible pos2 1 to_marker pos2_stores 0 pos2_no_error).
Defined.

Lemma bundle_load_infallible_witness :
  (forall t, In t pos2 -> Error (codec t) -> False) /\
  exists st' s', bundle_load pos2 4 (Some 7, (None, tt)) to_entity (pos2_stores, 0)
                 = (Ok tt, (st', s')).
Proof.
  split; [exact pos2_no_error|].
  apply (bundle_load_infallible pos2 4 _ to_entity pos2_stores 0 pos2_no_error).
Defined.

Lemma pos2_roundtrips : Forall (fun t => roundtrips (codec t)) pos2.
Proof. repeat constructor; apply copy_component_roundtrips. Qed.

(** Entity 1 has a [Pos] instance 5 and no instance of the second
    [Pos]; loaded onto entity 4, which has both. *)
Lemma bundle_save_load_copies_witness :
  Forall (fun t => roundtrips (codec t)) pos2 /\
  bundle_save pos2 1 to_marker (pos2_stores, 0) = (Ok (Some 5, (None, tt)), (pos2_stores, 0)) /\
  exists s2', bundle_load pos2 4 (Some 5, (None, tt)) to_entity (pos2_stores, 0)
              = (Ok tt, (copy_entity 1 4 pos2 pos2_stores pos2_stores, s2')).
Proof.
  assert (H : bundle_save pos2 1 to_marker (pos2_stores, 0)
              = (Ok (Some 5, (None, tt)), (pos2_stores, 0))) by reflexivity.
  split; [exact pos2_roundtrips|]. split; [exact H|].
  apply (bundle_save_load_copies pos2 1 4 to_marker to_entity pos2_stores 0 _ 0
           pos2_stores 0 pos2_roundtrips H).
Defined.

Lemma bundle_save_load_restores_witness :
  Forall (fun t => roundtrips (codec t)) pos2 /\
  bundle_save pos2 4 to_marker (pos2_stores, 0) = (Ok (Some 8, (Some 9, tt)), (pos2_stores, 0)) /\
  exists s2', bundle_load pos2 4 (Some 8, (Some 9, tt)) to_entity (pos2_stores, 0)
              = (Ok tt, (pos2_stores, s2')).
Proof.
  assert (H : bundle_save pos2 4 to_marker (pos2_stores, 0)
              = (Ok (Some 8, (Some 9, tt)), (pos2_stores, 0))) by reflexivity.
  split; [exact pos2_roundtrips|]. split; [exact H|].
  apply (bundle_save_load_restores pos2 4 to_marker to_entity pos2_stores 0 _ 0 0
           pos2_roundtrips H).
Defined.

End FurtherWitnesses.
